(** * go-evdev: the device handle of [device.go]

    A shallow embedding of the device handle (capability and state queries,
    driver version, event stream reader) together with the bit-field decoder
    and the device-control transport it is written against. *)

From Stdlib Require Import ZArith Lia List Bool.
From Stdlib Require Import Strings.String Strings.Byte Numbers.DecimalString.
From stdpp Require Import base option list list_numbers sorting strings gmap.

Local Open Scope Z_scope.

(** ** Go values *)

(** A Go [error] value.  [SysErr] stands for an error produced below
    [device.go] (by [os], by the ioctl transport or by [encoding/binary]);
    [Errorf] is a value built by [fmt.Errorf] inside [device.go]. *)
Inductive error : Type :=
| SysErr (msg : string)
| Errorf (msg : string).

(** [err.Error()], which is also what the verb [%v] prints. *)
Definition Error (e : error) : string :=
  match e with
  | SysErr msg => msg
  | Errorf msg => msg
  end.

(** The outcome of a call that returns [(value, error)] and is used on one
    side only. *)
Inductive result (A : Type) : Type :=
| Ok (a : A)
| Err (e : error).
Arguments Ok {A} a.
Arguments Err {A} e.

(** The verb [%d] on an integer. *)
Definition fmt_d (z : Z) : string := NilZero.string_of_int (Z.to_int z).

(** Conversion to an unsigned 16-bit type ([EvType], [EvCode], [EvProp]). *)
Definition uint16 (z : Z) : Z := z mod 65536.

Abbreviation byte := Init.Byte.byte.

Definition byte_val (b : byte) : Z := Z.of_N (Byte.to_N b).

(** ** Bit-field decoder *)

Module Bitmap.

(** Modelled from the spec: the bitmap type and its two methods are
    declared outside [device.go].  Bit position [p] lives in byte [p/8], at
    bit [p%8] of that byte, bit 0 being the least significant; a position
    outside the buffer is unset. *)
Definition bitIsSet (bits : list byte) (bit : Z) : bool :=
  if bit <? 0 then false
  else match bits !! Z.to_nat (bit / 8) with
       | Some b => Z.testbit (byte_val b) (bit mod 8)
       | None => false
       end.

(** Modelled from the spec: the scan behind [setBits], over [n] consecutive
    positions starting at [i], keeping those that test as set. *)
Fixpoint scan (bits : list byte) (n : nat) (i : Z) : list Z :=
  match n with
  | O => []
  | S n' =>
      if bitIsSet bits i then i :: scan bits n' (i + 1)
      else scan bits n' (i + 1)
  end.

(** Modelled from the spec: the ordered list of the set positions,
    ascending, over the [8 * len] positions of the buffer. *)
Definition setBits (bits : list byte) : list Z :=
  scan bits (8 * length bits) 0.

End Bitmap.
Import Bitmap.

(** ** Data model *)

(** Event types, event codes and device properties are unsigned 16-bit
    numbers; a Go [int] is unbounded here. *)
Abbreviation EvType := Z (only parsing).
Abbreviation EvCode := Z (only parsing).
Abbreviation EvProp := Z (only parsing).

(** The event-type constants that [device.go] names.  They come from the
    table generated from the kernel headers, which is taken as given. *)
Class Codes := {
  EV_KEY : EvType;
  EV_ABS : EvType;
  EV_SW : EvType;
  EV_LED : EvType;
  EV_SND : EvType;
}.

Record Timeval := { Sec : Z; Usec : Z }.

(** Modelled from the spec: the event record, declared outside [device.go]:
    seconds and microseconds as unsigned 64-bit words, type and code as
    unsigned 16-bit numbers, value as a signed 32-bit number, packed in this
    order without padding, little-endian. *)
Record InputEvent := {
  Time : Timeval;
  Type_ : EvType;
  Code : EvCode;
  Value : Z;
}.

Record InputID := { BusType : Z; Vendor : Z; Product : Z; Version : Z }.

Record AbsInfo := {
  AbsValue : Z; Minimum : Z; Maximum : Z; Fuzz : Z; Flat : Z; Resolution : Z;
}.

Abbreviation StateMap := (gmap Z bool).

(** An [os.File]: the descriptor and the name it was opened under. *)
Record File := { Fd : N; Name_ : string }.

Record InputDevice := {
  file : File;
  driverVersion : Z;
}.

(** [unsafe.Sizeof(InputEvent{})]: 8 + 8 + 2 + 2 + 4 bytes. *)
Definition eventsize : nat := 24.

Definition zeroEvent : InputEvent :=
  {| Time := {| Sec := 0; Usec := 0 |}; Type_ := 0; Code := 0; Value := 0 |}.

(** ** The environment *)

(** Modelled from the spec: the device-control transport, one operation per
    query kind, each a single request/response exchange on a descriptor that
    yields a value or an error. *)
Class Transport := {
  ioctlEVIOCGVERSION : N → result Z;
  ioctlEVIOCGNAME : N → result string;
  ioctlEVIOCGPHYS : N → result string;
  ioctlEVIOCGUNIQ : N → result string;
  ioctlEVIOCGID : N → result InputID;
  ioctlEVIOCGBIT : N → Z → result (list byte);
  ioctlEVIOCGPROP : N → result (list byte);
  ioctlEVIOCGKEY : N → result (list byte);
  ioctlEVIOCGSW : N → result (list byte);
  ioctlEVIOCGLED : N → result (list byte);
  ioctlEVIOCGSND : N → result (list byte);
  ioctlEVIOCGABS : N → Z → result AbsInfo;
  ioctlEVIOCGRAB : N → option error;
  ioctlEVIOCREVOKE : N → option error;
}.

(** What the operating system answers to [os.Open] and to a read on a
    descriptor: whether a node can be opened, and, for the [k]-th read served,
    the bytes delivered for a request of [count] bytes and the error
    reported. *)
Class Files := {
  open_node : string → option error;
  stream_read : N → nat → nat → list byte * option error;
}.

(** The part of the operating system's state that the handle changes: the
    descriptors that are open and the number of reads served so far. *)
Record World := { open_fds : list N; clock : nat }.

Definition fresh_fd (fds : list N) : N := N.succ (foldr N.max 0%N fds).

Section Env.
Context {fs : Files}.

(** [os.Open]. *)
Definition os_Open (path : string) (σ : World) : result File * World :=
  match open_node path with
  | Some err => (Err err, σ)
  | None =>
      let fd := fresh_fd (open_fds σ) in
      (Ok {| Fd := fd; Name_ := path |},
       {| open_fds := fd :: open_fds σ; clock := clock σ |})
  end.

(** [Close] on an [os.File]. *)
Definition file_Close (f : File) (σ : World) : World :=
  {| open_fds := List.filter (λ fd, negb (N.eqb fd (Fd f))) (open_fds σ);
     clock := clock σ |}.

(** [Read] on an [os.File]: at most [len(buffer)] bytes are stored at the start
    of the buffer, the rest of it is left as it was; the count and the error
    are returned.  A read of no byte at all into a buffer that is not empty,
    without an error of its own, is reported as [io.EOF]. *)
Definition file_Read (f : File) (buffer : list byte) (σ : World)
  : (list byte * Z * option error) * World :=
  let '(data, err) := stream_read (Fd f) (clock σ) (length buffer) in
  let data := take (length buffer) data in
  let err :=
    match err with
    | Some e => Some e
    | None =>
        if ((length data =? 0)%nat && negb (length buffer =? 0)%nat)%bool
        then Some (SysErr "EOF") else None
    end in
  ((data ++ drop (length data) buffer, Z.of_nat (length data), err),
   {| open_fds := open_fds σ; clock := S (clock σ) |}).

End Env.

(** ** Decoding of event records ([encoding/binary], little-endian) *)

Module Binary.

(** An unsigned integer from its bytes, least significant first. *)
Fixpoint le_uint (bs : list byte) : Z :=
  match bs with
  | [] => 0
  | b :: rest => byte_val b + 256 * le_uint rest
  end.

(** The bytes of a 32-bit word read as a signed number. *)
Definition int32 (u : Z) : Z := if u <? 2 ^ 31 then u else u - 2 ^ 32.

(** The [n] bytes at offset [off]. *)
Definition field (off n : nat) (bs : list byte) : list byte :=
  take n (drop off bs).

(** Modelled from the spec: one record from the [eventsize] bytes that hold
    it, field by field in the order and widths of the record layout. *)
Definition decodeEvent (bs : list byte) : InputEvent :=
  {| Time := {| Sec := le_uint (field 0 8 bs);
                Usec := le_uint (field 8 8 bs) |};
     Type_ := le_uint (field 16 2 bs);
     Code := le_uint (field 18 2 bs);
     Value := int32 (le_uint (field 20 4 bs)) |}.

Fixpoint decodeEvents (n : nat) (bs : list byte) : list InputEvent :=
  match n with
  | O => []
  | S n' => decodeEvent (take eventsize bs) :: decodeEvents n' (drop eventsize bs)
  end.

(** [binary.Read(b, binary.LittleEndian, &event)]: the bytes of the record
    are taken from the buffer first, and a buffer that holds too few of them
    is an error that leaves the destination untouched. *)
Definition Read_event (b : list byte) : result InputEvent :=
  if (length b <? eventsize)%nat then
    Err (SysErr (if (length b =? 0)%nat then "EOF" else "unexpected EOF"))
  else Ok (decodeEvent (take eventsize b)).

(** [binary.Read(b, binary.LittleEndian, &events)] for a slice of [n]
    records. *)
Definition Read_events (b : list byte) (n : nat) : result (list InputEvent) :=
  if (length b <? eventsize * n)%nat then
    Err (SysErr (if (length b =? 0)%nat then "EOF" else "unexpected EOF"))
  else Ok (decodeEvents n b).

End Binary.

(** ** The device handle *)

Section Device.
Context {codes : Codes} {tr : Transport} {fs : Files}.

Definition Open (path : string) (σ : World)
  : (option InputDevice * option error) * World :=
  match os_Open path σ with
  | (Err err, σ) => ((None, Some err), σ)
  | (Ok f, σ) =>
      match ioctlEVIOCGVERSION (Fd f) with
      | Err err =>
          ((None, Some (Errorf ("Cannot get driver version: " ++ Error err))), σ)
      | Ok v => ((Some {| file := f; driverVersion := v |}, None), σ)
      end
  end.

Definition Close (d : InputDevice) (σ : World) : World :=
  file_Close (file d) σ.

Definition Path (d : InputDevice) : string := Name_ (file d).

Definition DriverVersion (d : InputDevice) : Z * Z * Z :=
  (Z.shiftr (driverVersion d) 16,
   Z.land (Z.shiftr (driverVersion d) 8) 255,
   Z.land (Z.shiftr (driverVersion d) 0) 255).

Definition Name (d : InputDevice) : result string :=
  ioctlEVIOCGNAME (Fd (file d)).

Definition PhysicalLocation (d : InputDevice) : result string :=
  ioctlEVIOCGPHYS (Fd (file d)).

Definition UniqueID (d : InputDevice) : result string :=
  ioctlEVIOCGUNIQ (Fd (file d)).

Definition InputID_ (d : InputDevice) : result InputID :=
  ioctlEVIOCGID (Fd (file d)).

Definition CapableTypes (d : InputDevice) : list EvType :=
  match ioctlEVIOCGBIT (Fd (file d)) 0 with
  | Err _ => []
  | Ok evBits => foldl (λ types t, types ++ [uint16 t]) [] (setBits evBits)
  end.

Definition Properties (d : InputDevice) : list EvProp :=
  match ioctlEVIOCGPROP (Fd (file d)) with
  | Err _ => []
  | Ok propBits => foldl (λ props p, props ++ [uint16 p]) [] (setBits propBits)
  end.

(** The [switch] of [State]: the state query of the type, or the error of
    the default case. *)
Definition stateQuery (fd : N) (t : EvType) : result (list byte) :=
  if t =? EV_KEY then ioctlEVIOCGKEY fd
  else if t =? EV_SW then ioctlEVIOCGSW fd
  else if t =? EV_LED then ioctlEVIOCGLED fd
  else if t =? EV_SND then ioctlEVIOCGSND fd
  else Err (Errorf ("Unsupported evType " ++ fmt_d t)).

(** The map is [None] where the code returns [nil]. *)
Definition State (d : InputDevice) (t : EvType)
  : option StateMap * option error :=
  let fd := Fd (file d) in
  match ioctlEVIOCGBIT fd 0 with
  | Err err => (None, Some (Errorf ("Cannot get evBits: " ++ Error err)))
  | Ok evBits =>
      if negb (bitIsSet evBits t) then (Some ∅, None)
      else
        match ioctlEVIOCGBIT fd t with
        | Err err => (None, Some (Errorf ("Cannot get evBits: " ++ Error err)))
        | Ok codeBits =>
            match stateQuery fd t with
            | Err err => (None, Some err)
            | Ok stateBits =>
                (Some (foldl (λ (st : StateMap) code,
                                <[uint16 code := bitIsSet stateBits code]> st)
                             ∅ (setBits codeBits)),
                 None)
            end
        end
  end.

Definition AbsInfos (d : InputDevice)
  : option (gmap Z AbsInfo) * option error :=
  match ioctlEVIOCGBIT (Fd (file d)) EV_ABS with
  | Err err => (None, Some (Errorf ("Cannot get absBits: " ++ Error err)))
  | Ok absBits =>
      (Some (foldl (λ (a : gmap Z AbsInfo) abs,
                      match ioctlEVIOCGABS (Fd (file d)) abs with
                      | Ok absInfo => <[uint16 abs := absInfo]> a
                      | Err _ => a
                      end)
                   ∅ (setBits absBits)),
       None)
  end.

Definition Grab (d : InputDevice) : option error :=
  ioctlEVIOCGRAB (Fd (file d)).

Definition Revoke (d : InputDevice) : option error :=
  ioctlEVIOCREVOKE (Fd (file d)).

(** The loop that removes the trailing structures: [rest] is what remains
    to be visited of the slice the [range] was started on, [i] the index of
    its head, [events] the slice itself. *)
Fixpoint trimLoop (i : nat) (rest events : list InputEvent) : list InputEvent :=
  match rest with
  | [] => events
  | e :: rest' =>
      if Sec (Time e) =? 0 then take i events
      else trimLoop (S i) rest' events
  end.

Definition Read (d : InputDevice) (σ : World)
  : (list InputEvent * option error) * World :=
  let events := replicate 16 zeroEvent in
  let buffer := replicate (eventsize * 16) x00 in
  let '(buffer, _, err, σ) := file_Read (file d) buffer σ in
  match err with
  | Some err => ((events, Some err), σ)
  | None =>
      match Binary.Read_events buffer (length events) with
      | Err err => ((events, Some err), σ)
      | Ok events => ((trimLoop 0 events events, None), σ)
      end
  end.

(** The event is [None] where the code returns a [nil] pointer. *)
Definition ReadOne (d : InputDevice) (σ : World)
  : (option InputEvent * option error) * World :=
  let event := zeroEvent in
  let buffer := replicate eventsize x00 in
  let '(buffer, _, err, σ) := file_Read (file d) buffer σ in
  match err with
  | Some err => ((Some event, Some err), σ)
  | None =>
      match Binary.Read_event buffer with
      | Err err => ((None, Some err), σ)
      | Ok event => ((Some event, None), σ)
      end
  end.

End Device.

(** ** A simulated device

    A transport and a file system to run the handle against: descriptor 1 is
    a small keyboard with two axes, every other descriptor is a file that is
    not an event device. *)

Module Sim.

(** The values of the kernel headers. *)
Definition codes : Codes :=
  {| EV_KEY := 1; EV_ABS := 3; EV_SW := 5; EV_LED := 17; EV_SND := 18 |}.

Definition ENOTTY : error := SysErr "inappropriate ioctl for device".
Definition EINVAL : error := SysErr "invalid argument".
Definition ENODEV : error := SysErr "no such device".
Definition ENOENT : error := SysErr "no such file or directory".

(** Types 0 (sync), 1 (key), 3 (absolute axis) and 4 (misc) are marked. *)
Definition evBits : list byte := [x1b; x00; x00; x00].

(** Keys 1 and 30 are supported. *)
Definition keyBits : list byte := [x02; x00; x00; x40].

(** Key 30 is down; bits 31 and 32 are set although they are no keys of
    this device. *)
Definition keyState : list byte := [x00; x00; x00; xc0; x01].

(** Axes 0 and 1 are present. *)
Definition absBits : list byte := [x03; x00].

Definition axisX : AbsInfo :=
  {| AbsValue := 512; Minimum := 0; Maximum := 1023;
     Fuzz := 4; Flat := 8; Resolution := 0 |}.

Definition on_device {A} (fd : N) (r : result A) : result A :=
  if (fd =? 1)%N then r else Err ENOTTY.

Definition transport : Transport :=
  {| ioctlEVIOCGVERSION fd := on_device fd (Ok 65537);
     ioctlEVIOCGNAME fd := on_device fd (Ok "sim keyboard");
     ioctlEVIOCGPHYS fd := on_device fd (Ok "");
     ioctlEVIOCGUNIQ fd := on_device fd (Ok "");
     ioctlEVIOCGID fd :=
       on_device fd (Ok {| BusType := 3; Vendor := 1; Product := 1; Version := 1 |});
     ioctlEVIOCGBIT fd evtype :=
       on_device fd
         (if evtype =? 0 then Ok evBits
          else if evtype =? 1 then Ok keyBits
          else if evtype =? 3 then Ok absBits
          else if evtype =? 5 then Ok [x00]
          else Err EINVAL);
     ioctlEVIOCGPROP fd := on_device fd (Err EINVAL);
     ioctlEVIOCGKEY fd := on_device fd (Ok keyState);
     ioctlEVIOCGSW fd := on_device fd (Ok [x01]);
     ioctlEVIOCGLED fd := on_device fd (Ok [x00]);
     ioctlEVIOCGSND fd := on_device fd (Ok [x00]);
     ioctlEVIOCGABS fd abs :=
       on_device fd (if abs =? 0 then Ok axisX else Err EINVAL);
     ioctlEVIOCGRAB fd := if (fd =? 1)%N then None else Some ENOTTY;
     ioctlEVIOCREVOKE fd := if (fd =? 1)%N then None else Some ENOTTY |}.

(** The bytes of the record (seconds 1000, microseconds 500, type 1,
    code 30, value 1). *)
Definition keyDown : list byte :=
  [xe8; x03; x00; x00; x00; x00; x00; x00;
   xf4; x01; x00; x00; x00; x00; x00; x00;
   x01; x00; x1e; x00; x01; x00; x00; x00].

(** The same key released, with value -1 to exercise the sign. *)
Definition keyOdd : list byte :=
  [xe9; x03; x00; x00; x00; x00; x00; x00;
   x00; x00; x00; x00; x00; x00; x00; x00;
   x01; x00; x1e; x00; xff; xff; xff; xff].

(** Read 0 delivers two records, read 1 ten bytes, read 2 fails, read 3
    delivers sixteen records, later reads deliver one record. *)
Definition files : Files :=
  {| open_node path :=
       if String.eqb path "/dev/input/event9" then Some ENOENT else None;
     stream_read fd k count :=
       if negb (fd =? 1)%N then ([], Some EINVAL)
       else match k with
            | 0%nat => (take count (keyDown ++ keyOdd), None)
            | 1%nat => (take count (take 10 keyDown), None)
            | 2%nat => ([], Some ENODEV)
            | 3%nat => (take count (mjoin (replicate 16 keyDown)), None)
            | _ => (take count keyDown, None)
            end |}.

Definition dev : InputDevice :=
  {| file := {| Fd := 1; Name_ := "/dev/input/event0" |};
     driverVersion := 65537 |}.

(** A handle on descriptor 2, which is no event device. *)
Definition other : InputDevice :=
  {| file := {| Fd := 2; Name_ := "/dev/null" |}; driverVersion := 0 |}.

Definition world (k : nat) : World := {| open_fds := [1%N]; clock := k |}.

Definition event (sec usec type code value : Z) : InputEvent :=
  {| Time := {| Sec := sec; Usec := usec |};
     Type_ := type; Code := code; Value := value |}.

End Sim.

(** ** A device that stops answering

    Descriptor 1 reports its capabilities (types 0, 1 and 3, keys 1 and 30,
    axes 0, 1 and 9, properties 0 and 2), but every state query and every
    query for the info of an axis fails, as on a device that goes away in
    between. *)

Module Flaky.

Definition absBits : list byte := [x03; x02].

Definition transport : Transport :=
  {| ioctlEVIOCGVERSION fd := Sim.on_device fd (Ok 65537);
     ioctlEVIOCGNAME fd := Sim.on_device fd (Ok "flaky pad");
     ioctlEVIOCGPHYS fd := Sim.on_device fd (Ok "");
     ioctlEVIOCGUNIQ fd := Sim.on_device fd (Ok "");
     ioctlEVIOCGID fd :=
       Sim.on_device fd (Ok {| BusType := 3; Vendor := 2; Product := 2; Version := 1 |});
     ioctlEVIOCGBIT fd evtype :=
       Sim.on_device fd
         (if evtype =? 0 then Ok [x0b]
          else if evtype =? 1 then Ok Sim.keyBits
          else if evtype =? 3 then Ok absBits
          else Err Sim.EINVAL);
     ioctlEVIOCGPROP fd := Sim.on_device fd (Ok [x05]);
     ioctlEVIOCGKEY fd := Sim.on_device fd (Err Sim.ENODEV);
     ioctlEVIOCGSW fd := Sim.on_device fd (Err Sim.ENODEV);
     ioctlEVIOCGLED fd := Sim.on_device fd (Err Sim.ENODEV);
     ioctlEVIOCGSND fd := Sim.on_device fd (Err Sim.ENODEV);
     ioctlEVIOCGABS fd abs := Sim.on_device fd (Err Sim.ENODEV);
     ioctlEVIOCGRAB fd := Some Sim.ENODEV;
     ioctlEVIOCREVOKE fd := Some Sim.ENODEV |}.

End Flaky.

(** ** Properties of the bit-field decoder *)

Section BitmapFacts.
Implicit Types (bits : list byte) (p i : Z) (n : nat).

Lemma bitIsSet_in_range bits p :
  bitIsSet bits p = true → 0 ≤ p < 8 * Z.of_nat (length bits).
Proof.
  unfold bitIsSet. destruct (Z.ltb_spec p 0) as [|Hp]; [done|].
  destruct (bits !! Z.to_nat (p / 8)) as [b|] eqn:Hb; [|done].
  intros _. apply lookup_lt_Some in Hb.
  assert (p / 8 < Z.of_nat (length bits)) by lia.
  pose proof (Z.mul_div_le p 8). pose proof (Z.mod_pos_bound p 8).
  pose proof (Z.div_mod p 8). lia.
Qed.

Lemma bitIsSet_out_of_range bits p :
  p < 0 ∨ 8 * Z.of_nat (length bits) ≤ p → bitIsSet bits p = false.
Proof.
  intros Hp. destruct (bitIsSet bits p) eqn:E; [|done].
  apply bitIsSet_in_range in E. lia.
Qed.

Lemma elem_of_scan bits n i p :
  p ∈ scan bits n i ↔ (i ≤ p < i + Z.of_nat n) ∧ bitIsSet bits p = true.
Proof.
  revert i. induction n as [|n IH]; intros i; simpl.
  - rewrite elem_of_nil. lia.
  - destruct (bitIsSet bits i) eqn:Hi.
    + rewrite elem_of_cons, IH. split.
      * intros [->|[? ?]]; split; auto; lia.
      * intros [? ?]. destruct (decide (p = i)); [by left|right; split; [lia|done]].
    + rewrite IH. split.
      * intros [? ?]; split; [lia|done].
      * intros [? Hp]. split; [|done].
        destruct (decide (p = i)) as [->|]; [congruence|lia].
Qed.

Lemma scan_sorted bits n i : StronglySorted Z.lt (scan bits n i).
Proof.
  revert i. induction n as [|n IH]; intros i; simpl; [constructor|].
  destruct (bitIsSet bits i); [|apply IH].
  constructor; [apply IH|].
  apply Forall_forall. intros p Hp. apply elem_of_scan in Hp. lia.
Qed.

Lemma StronglySorted_lt_NoDup (l : list Z) : StronglySorted Z.lt l → NoDup l.
Proof.
  induction 1 as [|x l _ IH Hx]; constructor; [|done].
  intros Hin. rewrite Forall_forall in Hx. specialize (Hx _ Hin). lia.
Qed.

Lemma elem_of_setBits bits p : p ∈ setBits bits ↔ bitIsSet bits p = true.
Proof.
  unfold setBits. rewrite elem_of_scan. split; [tauto|].
  intros Hp. split; [|done]. apply bitIsSet_in_range in Hp. lia.
Qed.

Lemma scan_none bits n i :
  (∀ p, bitIsSet bits p = false) → scan bits n i = [].
Proof.
  intros Hz. revert i. induction n as [|n IH]; intros i; simpl; [done|].
  by rewrite Hz.
Qed.

Lemma scan_all bits n i :
  (∀ p, i ≤ p < i + Z.of_nat n → bitIsSet bits p = true) →
  scan bits n i = seqZ i (Z.of_nat n).
Proof.
  revert i. induction n as [|n IH]; intros i Hall; simpl.
  - by rewrite seqZ_nil.
  - rewrite Hall by lia. rewrite seqZ_cons by lia. f_equal.
    rewrite IH by (intros; apply Hall; lia).
    f_equal; lia.
Qed.

Lemma testbit_xff k : 0 ≤ k < 8 → Z.testbit (byte_val xff) k = true.
Proof.
  intros Hk.
  assert (k = 0 ∨ k = 1 ∨ k = 2 ∨ k = 3 ∨ k = 4 ∨ k = 5 ∨ k = 6 ∨ k = 7)
    as Hcases by lia.
  repeat (destruct Hcases as [->|Hcases]; [reflexivity|]).
  by subst.
Qed.

Lemma bitIsSet_zeros n p : bitIsSet (replicate n x00) p = false.
Proof.
  unfold bitIsSet. destruct (p <? 0); [done|].
  destruct (replicate n x00 !! Z.to_nat (p / 8)) as [b|] eqn:Hb; [|done].
  apply lookup_replicate in Hb as [-> _]. apply Z.testbit_0_l.
Qed.

Lemma bitIsSet_ones n p :
  0 ≤ p < 8 * Z.of_nat n → bitIsSet (replicate n xff) p = true.
Proof.
  intros Hp. unfold bitIsSet.
  destruct (Z.ltb_spec p 0); [lia|].
  assert (p / 8 < Z.of_nat n) by (apply Z.div_lt_upper_bound; lia).
  assert (0 ≤ p / 8) by (apply Z.div_pos; lia).
  rewrite lookup_replicate_2 by lia.
  apply testbit_xff, Z.mod_pos_bound. lia.
Qed.

End BitmapFacts.

(** C4. The single-bit test agrees with membership in the list of set
    positions; that list is strictly ascending and free of duplicates; it is
    empty for an empty buffer and for a buffer of zero bytes; for a buffer of
    [n] bytes with every bit set it is the positions [0 .. 8n-1]; and a
    position at or beyond eight times the length of the buffer tests as
    unset. *)
Theorem bitmap_decoder_contract :
  (∀ (B : list byte) (p : Z), bitIsSet B p = true ↔ p ∈ setBits B) ∧
  (∀ B : list byte, StronglySorted Z.lt (setBits B) ∧ NoDup (setBits B)) ∧
  setBits [] = [] ∧
  (∀ n : nat, setBits (replicate n x00) = []) ∧
  (∀ n : nat, setBits (replicate n xff) = seqZ 0 (8 * Z.of_nat n)) ∧
  (∀ (B : list byte) (p : Z),
      8 * Z.of_nat (length B) ≤ p → bitIsSet B p = false).
Proof.
  split; [intros B p; symmetry; apply elem_of_setBits|].
  split.
  { intros B. pose proof (scan_sorted B (8 * length B) 0) as Hs.
    split; [exact Hs|]. by apply StronglySorted_lt_NoDup. }
  split; [reflexivity|].
  split.
  { intros n. apply scan_none. intros p. apply bitIsSet_zeros. }
  split.
  { intros n. unfold setBits. rewrite length_replicate.
    rewrite scan_all.
    - f_equal. lia.
    - intros p Hp. apply bitIsSet_ones. lia. }
  intros B p Hp. apply bitIsSet_out_of_range. by right.
Qed.

Lemma bitmap_decoder_contract_witness :
  8 * Z.of_nat (length [x05; x80]) ≤ 16 ∧ bitIsSet [x05; x80] 16 = false.
Proof.
  split; [vm_compute; discriminate|].
  apply (proj2 (proj2 (proj2 (proj2 (proj2 bitmap_decoder_contract))))).
  vm_compute; discriminate.
Defined.

Example setBits_two_bytes : setBits [x05; x80] = [0; 2; 15].
Proof. reflexivity. Qed.

(** ** Properties of the device handle *)

(** A loop that stores into a map, for every position of a list, the value
    [g] gives for it (if any) under the 16-bit key of the position.  When the
    positions are 16-bit numbers the map ends up with the value of every
    position of the list, on top of what it held. *)
Lemma lookup_foldl_store {V} (g : Z → option V)
    (step : gmap Z V → Z → gmap Z V) (l : list Z) (m : gmap Z V) (c : Z) :
  (∀ a x v, g x = Some v → step a x = <[uint16 x := v]> a) →
  (∀ a x, g x = None → step a x = a) →
  (∀ x, x ∈ l → 0 ≤ x < 65536) →
  foldl step m l !! c =
    if decide (c ∈ l) then
      match g c with Some v => Some v | None => m !! c end
    else m !! c.
Proof.
  intros Hsome Hnone.
  induction l as [|x l IH] in m |- *; intros Hrange; cbn [foldl].
  { rewrite decide_False; [done|]. apply not_elem_of_nil. }
  assert (uint16 x = x) as Hx.
  { unfold uint16. apply Z.mod_small, Hrange. by left. }
  rewrite IH by (intros y Hy; apply Hrange; by right).
  destruct (decide (c = x)) as [->|Hne].
  - rewrite (decide_True (P := x ∈ x :: l)) by (by left).
    destruct (g x) as [v|] eqn:Hg.
    + rewrite (Hsome _ _ _ Hg), Hx, lookup_insert_eq. by case_decide.
    + rewrite (Hnone _ _ Hg). by case_decide.
  - assert (step m x !! c = m !! c) as ->.
    { destruct (g x) as [v|] eqn:Hg.
      - rewrite (Hsome _ _ _ Hg), Hx. by apply lookup_insert_ne.
      - by rewrite (Hnone _ _ Hg). }
    destruct (decide (c ∈ l)) as [Hin|Hnin].
    + rewrite decide_True; [done|]. by right.
    + rewrite decide_False; [done|].
      intros [?|?]%elem_of_cons; done.
Qed.

Lemma setBits_range (bits : list byte) (x : Z) :
  8 * Z.of_nat (length bits) ≤ 65536 → x ∈ setBits bits → 0 ≤ x < 65536.
Proof.
  intros Hlen Hx%elem_of_setBits%bitIsSet_in_range. lia.
Qed.

(** Bit [i] of the mask [0xff]. *)
Lemma testbit_0xff (i : nat) : Z.testbit 255 (Z.of_nat i) = (Z.of_nat i <? 8).
Proof.
  change 255 with (Z.ones 8). rewrite Z.testbit_ones by lia.
  by rewrite (proj2 (Z.leb_le 0 (Z.of_nat i))) by lia.
Qed.

Section DeviceFacts.
Context {codes : Codes} {tr : Transport} {fs : Files}.

(** C9. The packed version [0x00040113] is returned as [(4, 1, 19)]; in
    general the major part is the value shifted right by 16 bits (its
    quotient by 2^16), the minor part is bits 8 to 15 and the micro part is
    bits 0 to 7, both as numbers and bit by bit. *)
Theorem DriverVersion_decomposition :
  (∀ f, DriverVersion {| file := f; driverVersion := 0x00040113 |} = (4, 1, 19)) ∧
  (∀ d, DriverVersion d =
          (driverVersion d / 2 ^ 16,
           (driverVersion d / 2 ^ 8) mod 2 ^ 8,
           driverVersion d mod 2 ^ 8)) ∧
  (∀ d (i : nat),
      let '(major, minor, micro) := DriverVersion d in
      Z.testbit major (Z.of_nat i) = Z.testbit (driverVersion d) (Z.of_nat i + 16) ∧
      Z.testbit minor (Z.of_nat i)
        = (Z.testbit (driverVersion d) (Z.of_nat i + 8) && (Z.of_nat i <? 8))%bool ∧
      Z.testbit micro (Z.of_nat i)
        = (Z.testbit (driverVersion d) (Z.of_nat i) && (Z.of_nat i <? 8))%bool).
Proof.
  split; [reflexivity|]. split.
  - intros d. unfold DriverVersion.
    change 255 with (Z.ones 8).
    rewrite !Z.land_ones by lia.
    rewrite !Z.shiftr_div_pow2 by lia.
    rewrite Z.pow_0_r, Z.div_1_r. reflexivity.
  - intros d i. unfold DriverVersion.
    rewrite !Z.land_spec, !Z.shiftr_spec, testbit_0xff by lia.
    by rewrite Z.add_0_r.
Qed.

(** What [State] returns once the type is marked and its three queries
    have succeeded: exactly the supported codes, each with its bit of the
    state bit-field. *)
Lemma State_lookup d t evBits codeBits stateBits :
  ioctlEVIOCGBIT (Fd (file d)) 0 = Ok evBits →
  bitIsSet evBits t = true →
  ioctlEVIOCGBIT (Fd (file d)) t = Ok codeBits →
  stateQuery (Fd (file d)) t = Ok stateBits →
  8 * Z.of_nat (length codeBits) ≤ 65536 →
  ∃ st, State d t = (Some st, None) ∧
        ∀ c, st !! c = if bitIsSet codeBits c
                       then Some (bitIsSet stateBits c) else None.
Proof.
  intros Hev Hset Hcode Hstate Hlen. unfold State.
  rewrite Hev, Hset, Hcode, Hstate. simpl.
  eexists; split; [reflexivity|]. intros c.
  rewrite (lookup_foldl_store (λ x, Some (bitIsSet stateBits x)));
    [|by intros ??? [= <-]|done|intros x; by apply setBits_range].
  rewrite lookup_empty.
  destruct (bitIsSet codeBits c) eqn:Hc.
  - rewrite decide_True; [done|]. by apply elem_of_setBits.
  - rewrite decide_False; [done|]. rewrite elem_of_setBits. congruence.
Qed.

(** The shapes of a successful [State]. *)
Lemma State_Some_inv d t st :
  State d t = (Some st, None) →
  st = ∅ ∨ ∃ evBits codeBits stateBits,
    ioctlEVIOCGBIT (Fd (file d)) 0 = Ok evBits ∧
    bitIsSet evBits t = true ∧
    ioctlEVIOCGBIT (Fd (file d)) t = Ok codeBits ∧
    stateQuery (Fd (file d)) t = Ok stateBits.
Proof.
  unfold State.
  destruct (ioctlEVIOCGBIT (Fd (file d)) 0) as [evBits|] eqn:Hev; [|done].
  destruct (bitIsSet evBits t) eqn:Hset; simpl; [|intros [= <-]; by left].
  destruct (ioctlEVIOCGBIT (Fd (file d)) t) as [codeBits|] eqn:Hcode; [|done].
  destruct (stateQuery (Fd (file d)) t) as [stateBits|] eqn:Hst; [|done].
  intros _. right. by exists evBits, codeBits, stateBits.
Qed.

(** Without a bound on the bit-field: every key of the map is the 16-bit
    value of a position that is set in the supported-codes bit-field. *)
Lemma State_keys_from_set_positions d t codeBits st c :
  ioctlEVIOCGBIT (Fd (file d)) t = Ok codeBits →
  State d t = (Some st, None) →
  is_Some (st !! c) →
  ∃ p, bitIsSet codeBits p = true ∧ uint16 p = c.
Proof.
  intros Hcode Hst Hc.
  destruct (State_Some_inv _ _ _ Hst)
    as [->|(evBits & codeBits' & stateBits & Hev & Hset & Hcode' & Hq)].
  { rewrite lookup_empty in Hc. by destruct Hc. }
  rewrite Hcode in Hcode'. injection Hcode' as <-.
  unfold State in Hst. rewrite Hev, Hset, Hcode, Hq in Hst. simpl in Hst.
  injection Hst as <-.
  assert (∀ (l : list Z) (m : StateMap),
            is_Some (foldl (λ (st : StateMap) code,
                              <[uint16 code := bitIsSet stateBits code]> st) m l !! c) →
            is_Some (m !! c) ∨ ∃ p, p ∈ l ∧ uint16 p = c) as Hfold.
  { induction l as [|x l IH]; intros m; cbn [foldl]; [by left|].
    intros [Hm|(p & Hp & Hpc)]%IH.
    - destruct (decide (uint16 x = c)) as [Hx|Hx].
      + right. exists x. split; [by left|done].
      + left. by rewrite lookup_insert_ne in Hm.
    - right. exists p. split; [by right|done]. }
  apply Hfold in Hc as [Hc|(p & Hp & Hpc)].
  - rewrite lookup_empty in Hc. by destruct Hc.
  - exists p. split; [by apply elem_of_setBits|done].
Qed.

(** C2. Whatever the state bit-field holds, a map returned by [State t]
    has a key for a code only if the bit of that code is set in the
    supported-codes bit-field of [t] (a bit-field over the 16-bit codes); a
    code whose bit is not set there is absent. *)
Theorem State_only_supported_codes d t codeBits st :
  ioctlEVIOCGBIT (Fd (file d)) t = Ok codeBits →
  8 * Z.of_nat (length codeBits) ≤ 65536 →
  State d t = (Some st, None) →
  ∀ c, (is_Some (st !! c) → bitIsSet codeBits c = true) ∧
       (bitIsSet codeBits c = false → st !! c = None).
Proof.
  intros Hcode Hlen Hst c.
  assert (bitIsSet codeBits c = false → st !! c = None) as Habsent.
  { intros Hc.
    destruct (State_Some_inv _ _ _ Hst)
      as [->|(evBits & codeBits' & stateBits & Hev & Hset & Hcode' & Hq)];
      [apply lookup_empty|].
    rewrite Hcode in Hcode'. injection Hcode' as <-.
    destruct (State_lookup _ _ _ _ _ Hev Hset Hcode Hq Hlen) as (st' & Hst' & Hl).
    rewrite Hst in Hst'. injection Hst' as <-.
    by rewrite Hl, Hc. }
  split; [|done].
  intros [v Hv]. destruct (bitIsSet codeBits c); [done|].
  rewrite Habsent in Hv; done.
Qed.

(** C5. When the type is not marked in the global event-type bit-field,
    [State] returns an empty map and no error, whatever the other queries
    would answer. *)
Theorem State_unmarked_type_empty d t evBits :
  ioctlEVIOCGBIT (Fd (file d)) 0 = Ok evBits →
  bitIsSet evBits t = false →
  State d t = (Some ∅, None).
Proof.
  intros Hev Hset. unfold State. by rewrite Hev, Hset.
Qed.

(** C6, as amended. For a type outside key, switch, LED and sound that is
    marked in the global bit-field: when its supported-codes query succeeds,
    [State] returns no map and the error that names the type as unsupported;
    the supported-codes query is issued before the type is dispatched, and
    when it fails [State] returns no map and the error of that query under
    the prefix "Cannot get evBits: " instead. *)
Theorem State_unsupported_type d t evBits :
  t ≠ EV_KEY → t ≠ EV_SW → t ≠ EV_LED → t ≠ EV_SND →
  ioctlEVIOCGBIT (Fd (file d)) 0 = Ok evBits →
  bitIsSet evBits t = true →
  (∀ codeBits,
      ioctlEVIOCGBIT (Fd (file d)) t = Ok codeBits →
      State d t = (None, Some (Errorf ("Unsupported evType " ++ fmt_d t)))) ∧
  (∀ err,
      ioctlEVIOCGBIT (Fd (file d)) t = Err err →
      State d t = (None, Some (Errorf ("Cannot get evBits: " ++ Error err)))).
Proof.
  intros Hk Hsw Hled Hsnd Hev Hset. split.
  - intros codeBits Hcode. unfold State, stateQuery.
    rewrite Hev, Hset, Hcode. simpl.
    by rewrite !(proj2 (Z.eqb_neq _ _)) by done.
  - intros err Hcode. unfold State.
    by rewrite Hev, Hset, Hcode.
Qed.

(** C7. When the capability query fails [CapableTypes] returns the empty
    list, and when the property query fails [Properties] returns the empty
    list; neither has an error result. *)
Theorem capability_queries_lenient d :
  (∀ err, ioctlEVIOCGBIT (Fd (file d)) 0 = Err err → CapableTypes d = []) ∧
  (∀ err, ioctlEVIOCGPROP (Fd (file d)) = Err err → Properties d = []).
Proof.
  split; intros err Herr.
  - unfold CapableTypes. by rewrite Herr.
  - unfold Properties. by rewrite Herr.
Qed.

(** C8. When the query for the absolute-axis bit-field succeeds,
    [AbsInfos] returns a map and no error; the bit-field being one over the
    16-bit codes, the map holds for an axis exactly the answer of its info
    query when the bit of the axis is set and that query succeeded, and an
    axis whose query fails is left out. *)
Theorem AbsInfos_partial d absBits :
  ioctlEVIOCGBIT (Fd (file d)) EV_ABS = Ok absBits →
  ∃ a, AbsInfos d = (Some a, None) ∧
       (8 * Z.of_nat (length absBits) ≤ 65536 →
        ∀ c, a !! c =
               if bitIsSet absBits c then
                 match ioctlEVIOCGABS (Fd (file d)) c with
                 | Ok absInfo => Some absInfo
                 | Err _ => None
                 end
               else None).
Proof.
  intros Habs. unfold AbsInfos. rewrite Habs.
  eexists; split; [reflexivity|]. intros Hlen c.
  rewrite (lookup_foldl_store
             (λ x, match ioctlEVIOCGABS (Fd (file d)) x with
                   | Ok absInfo => Some absInfo
                   | Err _ => None
                   end)).
  - rewrite lookup_empty.
    destruct (bitIsSet absBits c) eqn:Hc.
    + rewrite decide_True by (by apply elem_of_setBits).
      by destruct (ioctlEVIOCGABS (Fd (file d)) c).
    + rewrite decide_False; [done|]. rewrite elem_of_setBits. congruence.
  - intros a x v Hx. by destruct (ioctlEVIOCGABS (Fd (file d)) x) as [i|]; simplify_eq.
  - intros a x Hx. by destruct (ioctlEVIOCGABS (Fd (file d)) x).
  - intros x. by apply setBits_range.
Qed.

(** *** The event stream reader *)

Lemma file_Read_length f buffer σ buffer' n err σ' :
  file_Read f buffer σ = (buffer', n, err, σ') →
  length buffer' = length buffer.
Proof.
  unfold file_Read.
  destruct (stream_read (Fd f) (clock σ) (length buffer)) as [data e].
  cbv zeta. intros [= <- _ _ _].
  rewrite length_app, length_drop, length_take. lia.
Qed.

Lemma Read_events_full b n :
  length b = (eventsize * n)%nat →
  Binary.Read_events b n = Ok (Binary.decodeEvents n b).
Proof.
  intros Hlen. unfold Binary.Read_events.
  by rewrite (proj2 (Nat.ltb_ge _ _)) by lia.
Qed.

Lemma Read_event_full b :
  length b = eventsize →
  Binary.Read_event b = Ok (Binary.decodeEvent b).
Proof.
  intros Hlen. unfold Binary.Read_event.
  rewrite (proj2 (Nat.ltb_ge _ _)) by lia.
  by rewrite <- Hlen, firstn_all.
Qed.

Lemma length_decodeEvents n b : length (Binary.decodeEvents n b) = n.
Proof.
  revert b. induction n as [|n IH]; intros b; simpl; [done|]. by rewrite IH.
Qed.

(** The loop stops at the first record whose seconds are zero and keeps
    what precedes it. *)
Lemma trimLoop_stops pre valid z rest :
  Forall (λ e, Sec (Time e) ≠ 0) valid →
  Sec (Time z) = 0 →
  trimLoop (length pre) (valid ++ z :: rest) (pre ++ valid ++ z :: rest)
  = pre ++ valid.
Proof.
  intros Hvalid Hz. revert pre.
  induction Hvalid as [|v valid Hv _ IH]; intros pre; simpl.
  - rewrite Hz. simpl. by rewrite take_app_length, app_nil_r.
  - rewrite (proj2 (Z.eqb_neq _ _) Hv).
    specialize (IH (pre ++ [v])).
    rewrite length_app, Nat.add_1_r, <- !app_assoc in IH. exact IH.
Qed.

Lemma trimLoop_first_zero valid z rest :
  Forall (λ e, Sec (Time e) ≠ 0) valid →
  Sec (Time z) = 0 →
  trimLoop 0 (valid ++ z :: rest) (valid ++ z :: rest) = valid.
Proof. intros Hvalid Hz. exact (trimLoop_stops [] valid z rest Hvalid Hz). Qed.

(** Without such a record the slice is left as it is. *)
Lemma trimLoop_keeps i rest events :
  Forall (λ e, Sec (Time e) ≠ 0) rest →
  trimLoop i rest events = events.
Proof.
  intros Hrest. revert i.
  induction Hrest as [|e rest He _ IH]; intros i; simpl; [done|].
  by rewrite (proj2 (Z.eqb_neq _ _) He).
Qed.

(** A list splits at an index into what precedes it and what follows. *)
Lemma split_at_index {A} (l : list A) i x :
  l !! i = Some x → l = take i l ++ x :: drop (S i) l.
Proof.
  intros Hx. rewrite <- (take_drop i l) at 1. f_equal.
  by apply drop_S.
Qed.

(** [Read] once the file read has returned without error. *)
Lemma Read_decoded d σ buffer n σ' :
  file_Read (file d) (replicate (eventsize * 16) x00) σ = (buffer, n, None, σ') →
  Read d σ =
    ((trimLoop 0 (Binary.decodeEvents 16 buffer) (Binary.decodeEvents 16 buffer),
      None), σ').
Proof.
  intros Hread. unfold Read. rewrite Hread.
  rewrite length_replicate.
  rewrite Read_events_full; [done|].
  apply file_Read_length in Hread. by rewrite Hread, length_replicate.
Qed.

(** C1. Let the buffer of a batch read decode to the 16 records [evs].
    If [evs] is fewer than 16 records of non-zero seconds followed by
    records of zero seconds, the result is exactly the former; if all 16
    records have non-zero seconds, the result is all 16; and in general the
    result is cut at the first index, counting from 0, whose record has zero
    seconds. *)
Theorem Read_trims_at_first_zero_seconds d σ buffer n σ' evs :
  file_Read (file d) (replicate (eventsize * 16) x00) σ = (buffer, n, None, σ') →
  Binary.decodeEvents 16 buffer = evs →
  (∀ valid pad,
      evs = valid ++ pad → (length valid < 16)%nat →
      Forall (λ e, Sec (Time e) ≠ 0) valid →
      Forall (λ e, Sec (Time e) = 0) pad →
      Read d σ = ((valid, None), σ')) ∧
  (Forall (λ e, Sec (Time e) ≠ 0) evs →
      Read d σ = ((evs, None), σ') ∧ length evs = 16%nat) ∧
  (∀ i e,
      evs !! i = Some e → Sec (Time e) = 0 →
      (∀ j e', (j < i)%nat → evs !! j = Some e' → Sec (Time e') ≠ 0) →
      Read d σ = ((take i evs, None), σ')).
Proof.
  intros Hread Hevs. rewrite (Read_decoded _ _ _ _ _ Hread), Hevs.
  assert (length evs = 16%nat) as Hlen by (by rewrite <- Hevs, length_decodeEvents).
  split; [|split].
  - intros valid pad -> Hk Hvalid Hpad.
    destruct pad as [|z pad].
    { rewrite app_nil_r in Hlen. lia. }
    apply Forall_cons in Hpad as [Hz _].
    by rewrite (trimLoop_first_zero valid z pad Hvalid Hz).
  - intros Hall. split; [|done]. by rewrite trimLoop_keeps.
  - intros i e Hi Hz Hbefore.
    rewrite (split_at_index _ _ _ Hi) at 1 2.
    rewrite (trimLoop_first_zero (take i evs) e (drop (S i) evs)); [done| |done].
    apply Forall_forall. intros e' He'.
    apply list_elem_of_lookup in He' as [j Hj].
    apply lookup_take_Some in Hj as [Hj Hlt]. by eapply Hbefore.
Qed.

(** A read on the file reports no error when the stream delivers at least
    one byte without error, however few. *)
Lemma file_Read_no_error f buffer σ data :
  stream_read (Fd f) (clock σ) (length buffer) = (data, None) →
  data ≠ [] → buffer ≠ [] →
  ∃ buffer' n σ', file_Read f buffer σ = (buffer', n, None, σ').
Proof.
  intros Hstream Hdata Hbuffer. unfold file_Read. rewrite Hstream. cbv zeta.
  destruct data as [|b data]; [done|]. destruct buffer as [|b' buffer]; [done|].
  simpl. eauto.
Qed.

(** C3, as amended. Both reads return exactly the error that the read on
    the file reports, together with zeroed records when there is one.  The
    number of bytes delivered is not looked at: when the file read reports no
    error the buffer, whose undelivered bytes are zero, is decoded and no
    error is returned; this is so whenever the stream delivers at least one
    byte without error, however few. *)
Theorem reads_return_the_file_error d σ :
  (∀ buffer n err σ',
      file_Read (file d) (replicate (eventsize * 16) x00) σ = (buffer, n, err, σ') →
      Read d σ =
        ((match err with
          | Some _ => replicate 16 zeroEvent
          | None => trimLoop 0 (Binary.decodeEvents 16 buffer)
                               (Binary.decodeEvents 16 buffer)
          end, err), σ')) ∧
  (∀ buffer n err σ',
      file_Read (file d) (replicate eventsize x00) σ = (buffer, n, err, σ') →
      ReadOne d σ =
        ((Some (match err with
                | Some _ => zeroEvent
                | None => Binary.decodeEvent buffer
                end), err), σ')) ∧
  (∀ data,
      stream_read (Fd (file d)) (clock σ) (eventsize * 16) = (data, None) →
      data ≠ [] → (Read d σ).1.2 = None) ∧
  (∀ data,
      stream_read (Fd (file d)) (clock σ) eventsize = (data, None) →
      data ≠ [] → (ReadOne d σ).1.2 = None).
Proof.
  assert (∀ buffer n err σ',
             file_Read (file d) (replicate eventsize x00) σ = (buffer, n, err, σ') →
             ReadOne d σ =
               ((Some (match err with
                       | Some _ => zeroEvent
                       | None => Binary.decodeEvent buffer
                       end), err), σ')) as HreadOne.
  { intros buffer n [err|] σ' Hread; unfold ReadOne; rewrite Hread; [done|].
    rewrite Read_event_full; [done|].
    apply file_Read_length in Hread. by rewrite Hread, length_replicate. }
  split; [|split; [exact HreadOne|split]].
  - intros buffer n [err|] σ' Hread.
    + unfold Read. by rewrite Hread.
    + by apply Read_decoded in Hread.
  - intros data Hstream Hdata.
    destruct (file_Read_no_error (file d) (replicate (eventsize * 16) x00) σ data)
      as (buffer & n & σ' & Hread); [by rewrite length_replicate|done|done|].
    by rewrite (Read_decoded _ _ _ _ _ Hread).
  - intros data Hstream Hdata.
    destruct (file_Read_no_error (file d) (replicate eventsize x00) σ data)
      as (buffer & n & σ' & Hread); [by rewrite length_replicate|done|done|].
    by rewrite (HreadOne _ _ _ _ Hread).
Qed.

(** Records that fill a prefix of the buffer decode on their own, and zero
    bytes decode to zeroed records. *)
Lemma decodeEvents_app k m data rest :
  length data = (k * eventsize)%nat →
  Binary.decodeEvents (k + m) (data ++ rest)
  = Binary.decodeEvents k data ++ Binary.decodeEvents m rest.
Proof.
  revert data. induction k as [|k IH]; intros data Hlen.
  - by destruct data.
  - cbn [Nat.add Binary.decodeEvents].
    rewrite take_app_le, drop_app_le by lia.
    rewrite IH; [done|]. rewrite length_drop. lia.
Qed.

Lemma decodeEvents_zeros m :
  Binary.decodeEvents m (replicate (m * eventsize) x00) = replicate m zeroEvent.
Proof.
  induction m as [|m IH]; [done|].
  cbn [Binary.decodeEvents].
  rewrite take_replicate, drop_replicate.
  replace (S m * eventsize - eventsize)%nat with (m * eventsize)%nat by lia.
  rewrite IH.
  by replace (eventsize `min` (S m * eventsize))%nat with eventsize by lia.
Qed.

(** X16. A read that delivers the bytes of [k] whole records with non-zero
    seconds and nothing else, the rest of the block staying zero, returns
    these [k] records. *)
Lemma Read_block_of_records d σ data k :
  stream_read (Fd (file d)) (clock σ) (eventsize * 16) = (data, None) →
  length data = (k * eventsize)%nat → (0 < k ≤ 16)%nat →
  Forall (λ e, Sec (Time e) ≠ 0) (Binary.decodeEvents k data) →
  Read d σ = ((Binary.decodeEvents k data, None),
              {| open_fds := open_fds σ; clock := S (clock σ) |}).
Proof.
  intros Hstream Hlen Hk Hvalid.
  assert (file_Read (file d) (replicate (eventsize * 16) x00) σ
          = (data ++ replicate ((16 - k) * eventsize) x00,
             Z.of_nat (length data), None,
             {| open_fds := open_fds σ; clock := S (clock σ) |})) as Hread.
  { unfold file_Read. rewrite length_replicate, Hstream.
    assert (length data ≤ eventsize * 16)%nat as Hle
      by (unfold eventsize in *; lia).
    rewrite (take_ge data (eventsize * 16) Hle), drop_replicate.
    rewrite (proj2 (Nat.eqb_neq (length data) 0))
      by (unfold eventsize in *; lia).
    cbn [andb].
    replace (eventsize * 16 - length data)%nat with ((16 - k) * eventsize)%nat
      by (unfold eventsize in *; lia).
    reflexivity. }
  assert (Binary.decodeEvents 16 (data ++ replicate ((16 - k) * eventsize) x00)
          = Binary.decodeEvents k data ++ replicate (16 - k) zeroEvent) as Hdec.
  { replace 16%nat with (k + (16 - k))%nat at 1 by lia.
    by rewrite decodeEvents_app, decodeEvents_zeros. }
  rewrite (Read_decoded _ _ _ _ _ Hread), Hdec.
  destruct (decide (k = 16%nat)) as [->|Hne].
  - change (replicate (16 - 16) zeroEvent) with (@nil InputEvent).
    rewrite app_nil_r. by rewrite trimLoop_keeps.
  - replace (16 - k)%nat with (S (15 - k)) by lia.
    cbn [replicate]. by rewrite trimLoop_first_zero.
Qed.

(** *** Opening a device *)

Lemma fresh_fd_not_open fds : fresh_fd fds ∉ fds.
Proof.
  assert (∀ x, x ∈ fds → (x ≤ foldr N.max 0 fds)%N) as Hmax.
  { induction fds as [|y fds IH]; intros x Hx; [by apply elem_of_nil in Hx|].
    simpl. apply elem_of_cons in Hx as [->|Hx]; [lia|].
    specialize (IH x Hx). lia. }
  intros Hin. apply Hmax in Hin. unfold fresh_fd in Hin. lia.
Qed.

(** C10. When [Open] has opened the file and the driver-version call on it
    fails, [Open] returns no handle and an error whose message starts with
    "Cannot get driver version"; the file it opened, which was not open
    before, is still open afterwards. *)
Theorem Open_version_failure_leaves_file_open path σ f σ1 err :
  os_Open path σ = (Ok f, σ1) →
  ioctlEVIOCGVERSION (Fd f) = Err err →
  Open path σ =
    ((None, Some (Errorf ("Cannot get driver version: " ++ Error err))), σ1) ∧
  String.prefix "Cannot get driver version"
    ("Cannot get driver version: " ++ Error err) = true ∧
  (Fd f ∉ open_fds σ) ∧
  (Fd f ∈ open_fds σ1).
Proof.
  intros Hopen Hver. split; [|split; [reflexivity|]].
  - unfold Open. by rewrite Hopen, Hver.
  - unfold os_Open in Hopen. destruct (open_node path); [done|].
    injection Hopen as <- <-. simpl. split; [apply fresh_fd_not_open|by left].
Qed.

End DeviceFacts.

(** ** The handle on the simulated device *)

Section Simulated.
Local Existing Instance Sim.codes.
Local Existing Instance Sim.transport.
Local Existing Instance Sim.files.

Ltac by_evaluation := vm_compute; reflexivity.

Example decode_keyDown :
  Binary.decodeEvent Sim.keyDown = Sim.event 1000 500 1 30 1.
Proof. reflexivity. Qed.

Example CapableTypes_sim : CapableTypes Sim.dev = [0; 1; 3; 4].
Proof. reflexivity. Qed.

Lemma Read_trims_at_first_zero_seconds_witness :
  Read Sim.dev (Sim.world 0)
  = (([Sim.event 1000 500 1 30 1; Sim.event 1001 0 1 30 (-1)], None), Sim.world 1)
  ∧ Read Sim.dev (Sim.world 3)
    = ((replicate 16 (Sim.event 1000 500 1 30 1), None), Sim.world 4).
Proof.
  split.
  - destruct (Read_trims_at_first_zero_seconds
                Sim.dev (Sim.world 0)
                (Sim.keyDown ++ Sim.keyOdd ++ replicate 336 x00) 48 (Sim.world 1)
                ([Sim.event 1000 500 1 30 1; Sim.event 1001 0 1 30 (-1)]
                   ++ replicate 14 zeroEvent)) as (Hshort & _ & _);
      [by_evaluation | by_evaluation |].
    apply (Hshort _ (replicate 14 zeroEvent) eq_refl).
    + simpl. lia.
    + repeat constructor; simpl; lia.
    + by apply Forall_replicate.
  - destruct (Read_trims_at_first_zero_seconds
                Sim.dev (Sim.world 3)
                (mjoin (replicate 16 Sim.keyDown)) 384 (Sim.world 4)
                (replicate 16 (Sim.event 1000 500 1 30 1))) as (_ & Hfull & _);
      [by_evaluation | by_evaluation |].
    apply Hfull. apply Forall_replicate. simpl. lia.
Defined.

Lemma State_only_supported_codes_witness :
  State Sim.dev 1 = (Some (<[30 := true]> (<[1 := false]> ∅)), None)
  ∧ bitIsSet Sim.keyState 31 = true
  ∧ (<[30 := true]> (<[1 := false]> (∅ : StateMap))) !! 31 = None.
Proof.
  split; [by_evaluation|]. split; [reflexivity|].
  apply (State_only_supported_codes Sim.dev 1 Sim.keyBits
           (<[30 := true]> (<[1 := false]> ∅))).
  - reflexivity.
  - simpl. lia.
  - by_evaluation.
  - reflexivity.
Defined.

Lemma State_unmarked_type_empty_witness :
  ioctlEVIOCGSW 1 = Ok [x01] ∧ State Sim.dev 5 = (Some ∅, None).
Proof.
  split; [reflexivity|].
  apply (State_unmarked_type_empty Sim.dev 5 Sim.evBits); reflexivity.
Defined.

Lemma State_unsupported_type_witness :
  State Sim.dev 3 = (None, Some (Errorf "Unsupported evType 3"))
  ∧ State Sim.dev 4 = (None, Some (Errorf "Cannot get evBits: invalid argument")).
Proof.
  split.
  - refine (proj1 (State_unsupported_type Sim.dev 3 Sim.evBits _ _ _ _ _ _)
              Sim.absBits _); (discriminate || reflexivity).
  - refine (proj2 (State_unsupported_type Sim.dev 4 Sim.evBits _ _ _ _ _ _)
              Sim.EINVAL _); (discriminate || reflexivity).
Defined.

(** C6 as stated fails: type 4 is none of key, switch, LED and sound and is
    marked in the global bit-field, but its supported-codes query fails, and
    [State] returns the error of that query under "Cannot get evBits", not
    the error that names the type as unsupported. *)
Lemma State_unsupported_type_counterexample :
  (4 ≠ EV_KEY ∧ 4 ≠ EV_SW ∧ 4 ≠ EV_LED ∧ 4 ≠ EV_SND)
  ∧ ioctlEVIOCGBIT (Fd (file Sim.dev)) 0 = Ok Sim.evBits
  ∧ bitIsSet Sim.evBits 4 = true
  ∧ State Sim.dev 4 = (None, Some (Errorf "Cannot get evBits: invalid argument"))
  ∧ State Sim.dev 4 ≠ (None, Some (Errorf ("Unsupported evType " ++ fmt_d 4))).
Proof.
  repeat split; try discriminate; reflexivity.
Qed.

Lemma capability_queries_lenient_witness :
  CapableTypes Sim.other = [] ∧ Properties Sim.other = [].
Proof.
  split.
  - apply (proj1 (capability_queries_lenient Sim.other) Sim.ENOTTY). reflexivity.
  - apply (proj2 (capability_queries_lenient Sim.other) Sim.ENOTTY). reflexivity.
Defined.

Lemma AbsInfos_partial_witness :
  bitIsSet Sim.absBits 1 = true
  ∧ ioctlEVIOCGABS (Fd (file Sim.dev)) 1 = Err Sim.EINVAL
  ∧ ∃ a, AbsInfos Sim.dev = (Some a, None)
         ∧ a !! 0 = Some Sim.axisX ∧ a !! 1 = None ∧ a !! 2 = None.
Proof.
  split; [reflexivity|]. split; [reflexivity|].
  destruct (AbsInfos_partial Sim.dev Sim.absBits) as (a & Ha & Hl).
  - reflexivity.
  - exists a. split; [exact Ha|].
    assert (8 * Z.of_nat (length Sim.absBits) ≤ 65536) as Hlen by (simpl; lia).
    split; [|split]; rewrite (Hl Hlen); reflexivity.
Defined.

Lemma reads_return_the_file_error_witness :
  Read Sim.dev (Sim.world 2) = ((replicate 16 zeroEvent, Some Sim.ENODEV), Sim.world 3)
  ∧ ReadOne Sim.dev (Sim.world 2) = ((Some zeroEvent, Some Sim.ENODEV), Sim.world 3)
  ∧ ReadOne Sim.dev (Sim.world 4)
    = ((Some (Sim.event 1000 500 1 30 1), None), Sim.world 5)
  ∧ (Read Sim.dev (Sim.world 1)).1.2 = None.
Proof.
  split; [|split; [|split]].
  - apply (proj1 (reads_return_the_file_error Sim.dev (Sim.world 2))
             (replicate 384 x00) 0 (Some Sim.ENODEV) (Sim.world 3)).
    by_evaluation.
  - apply (proj1 (proj2 (reads_return_the_file_error Sim.dev (Sim.world 2)))
             (replicate 24 x00) 0 (Some Sim.ENODEV) (Sim.world 3)).
    by_evaluation.
  - apply (proj1 (proj2 (reads_return_the_file_error Sim.dev (Sim.world 4)))
             Sim.keyDown 24 None (Sim.world 5)).
    by_evaluation.
  - apply (proj1 (proj2 (proj2 (reads_return_the_file_error Sim.dev (Sim.world 1))))
             (take 10 Sim.keyDown)).
    + by_evaluation.
    + discriminate.
Defined.

(** C3 as stated fails: the second read on the simulated device completes
    with 10 bytes, fewer than the 24 bytes of one record and than the 384
    bytes of a block, and reports no error; [ReadOne] and [Read] then return a
    record decoded from these bytes and no error. *)
Lemma short_read_counterexample :
  stream_read (Fd (file Sim.dev)) 1 eventsize = (take 10 Sim.keyDown, None)
  ∧ stream_read (Fd (file Sim.dev)) 1 (eventsize * 16) = (take 10 Sim.keyDown, None)
  ∧ (file_Read (file Sim.dev) (replicate eventsize x00) (Sim.world 1)).1.1.2 = 10
  ∧ (file_Read (file Sim.dev) (replicate (eventsize * 16) x00) (Sim.world 1)).1.1.2 = 10
  ∧ ReadOne Sim.dev (Sim.world 1)
    = ((Some (Sim.event 1000 500 0 0 0), None), Sim.world 2)
  ∧ Read Sim.dev (Sim.world 1)
    = (([Sim.event 1000 500 0 0 0], None), Sim.world 2).
Proof.
  repeat split; by_evaluation.
Qed.

Lemma Open_version_failure_leaves_file_open_witness :
  Open "/dev/input/event0" (Sim.world 0)
  = ((None, Some (Errorf "Cannot get driver version: inappropriate ioctl for device")),
     {| open_fds := [2%N; 1%N]; clock := 0 |})
  ∧ (2%N ∉ open_fds (Sim.world 0))
  ∧ (2%N ∈ [2%N; 1%N]).
Proof.
  destruct (Open_version_failure_leaves_file_open
              "/dev/input/event0" (Sim.world 0)
              {| Fd := 2; Name_ := "/dev/input/event0" |}
              {| open_fds := [2%N; 1%N]; clock := 0 |}
              Sim.ENOTTY) as (Hopen & _ & Hbefore & Hafter);
    [reflexivity | reflexivity |].
  split; [exact Hopen|]. split; [exact Hbefore|exact Hafter].
Defined.

End Simulated.

(** ** Further properties of the device handle *)

(** Removing a descriptor that is not in the table changes nothing. *)
Lemma filter_absent (fd : N) (fds : list N) :
  fd ∉ fds → List.filter (λ x, negb (N.eqb x fd)) fds = fds.
Proof.
  induction fds as [|y fds IH]; intros Hfd; simpl; [done|].
  apply not_elem_of_cons in Hfd as [Hne Hfd].
  rewrite (proj2 (N.eqb_neq y fd)) by done. simpl. by rewrite IH.
Qed.

Section Contract.
Context {codes : Codes} {tr : Transport} {fs : Files}.

(** *** Opening and closing *)

(** X1. When the file opens and the driver-version call on it succeeds,
    [Open] returns a handle and no error; the handle reports the path it was
    opened under and holds the version the call returned, and its descriptor,
    not open before, is open afterwards. *)
Theorem Open_success path σ f σ1 v :
  os_Open path σ = (Ok f, σ1) →
  ioctlEVIOCGVERSION (Fd f) = Ok v →
  ∃ d, Open path σ = ((Some d, None), σ1) ∧
       Path d = path ∧ driverVersion d = v ∧
       (Fd (file d) ∉ open_fds σ) ∧ (Fd (file d) ∈ open_fds σ1).
Proof.
  intros Hopen Hver. unfold Open. rewrite Hopen, Hver.
  eexists; split; [reflexivity|]. unfold Path. simpl.
  unfold os_Open in Hopen. destruct (open_node path); [done|].
  injection Hopen as <- <-. simpl.
  repeat split; [apply fresh_fd_not_open|by left].
Qed.

(** X2. [Open] and the open descriptors: when the node cannot be opened,
    [Open] returns the error of [os.Open] as it is and leaves the table of open
    descriptors untouched; in every other case, whether it returns a handle or
    an error, exactly one descriptor that was not open before has been added
    to the table. *)
Theorem Open_descriptor_accounting path σ :
  match open_node path with
  | Some err => Open path σ = ((None, Some err), σ)
  | None => ∃ fd, (fd ∉ open_fds σ) ∧
                  open_fds (Open path σ).2 = fd :: open_fds σ
  end.
Proof.
  unfold Open, os_Open. destruct (open_node path) as [err|]; [done|].
  exists (fresh_fd (open_fds σ)). split; [apply fresh_fd_not_open|].
  by destruct (ioctlEVIOCGVERSION _).
Qed.

(** X3. [Close] on the handle that a successful [Open] returned brings the
    table of open descriptors back to what it was before the [Open]. *)
Theorem Open_then_Close path σ d σ1 :
  Open path σ = ((Some d, None), σ1) →
  Close d σ1 = σ.
Proof.
  unfold Open, os_Open. destruct (open_node path); [done|].
  destruct (ioctlEVIOCGVERSION _); [|done].
  intros [= <- <-]. unfold Close, file_Close. simpl.
  rewrite N.eqb_refl. simpl.
  rewrite filter_absent by apply fresh_fd_not_open.
  by destruct σ.
Qed.

(** X4. The three parts of the driver version lose nothing: the packed
    value is [major * 2^16 + minor * 2^8 + micro], with the minor and micro
    parts in [0, 255]. *)
Theorem DriverVersion_recompose :
  ∀ d, let '(major, minor, micro) := DriverVersion d in
       driverVersion d = major * 2 ^ 16 + minor * 2 ^ 8 + micro ∧
       0 ≤ minor < 256 ∧ 0 ≤ micro < 256.
Proof.
  intros d. unfold DriverVersion.
  change 255 with (Z.ones 8).
  rewrite !Z.land_ones, !Z.shiftr_div_pow2 by lia.
  rewrite Z.pow_0_r, Z.div_1_r.
  set (v := driverVersion d).
  change (2 ^ 16) with (2 ^ 8 * 2 ^ 8).
  rewrite <- Z.div_div by lia.
  pose proof (Z.div_mod v (2 ^ 8)). pose proof (Z.div_mod (v / 2 ^ 8) (2 ^ 8)).
  pose proof (Z.mod_pos_bound v (2 ^ 8)).
  pose proof (Z.mod_pos_bound (v / 2 ^ 8) (2 ^ 8)).
  change (2 ^ 8) with 256 in *. lia.
Qed.

(** *** Capability lists *)

(** The loop that appends the 16-bit value of every position. *)
Lemma foldl_append_uint16 (acc l : list Z) :
  foldl (λ types t, types ++ [uint16 t]) acc l = acc ++ (uint16 <$> l).
Proof.
  revert acc. induction l as [|x l IH]; intros acc.
  - by rewrite app_nil_r.
  - cbn [foldl]. by rewrite IH, fmap_cons, <- app_assoc.
Qed.

Lemma fmap_uint16_setBits (bits : list byte) :
  8 * Z.of_nat (length bits) ≤ 65536 → uint16 <$> setBits bits = setBits bits.
Proof.
  intros Hlen.
  assert (∀ l : list Z, (∀ x, x ∈ l → 0 ≤ x < 65536) → uint16 <$> l = l) as Hid.
  { induction l as [|x l IH]; intros Hl; [done|].
    rewrite fmap_cons, IH by (intros y Hy; apply Hl; by right).
    unfold uint16. rewrite Z.mod_small; [done|]. apply Hl. by left. }
  apply Hid. intros x. by apply setBits_range.
Qed.

Lemma setBits_sorted (bits : list byte) : StronglySorted Z.lt (setBits bits).
Proof. apply scan_sorted. Qed.

(** X5. When the capability query succeeds (with a bit-field over the
    16-bit types), [CapableTypes] lists exactly the types whose bit is set, in
    strictly ascending order and hence without duplicates. *)
Theorem CapableTypes_marked_types d evBits :
  ioctlEVIOCGBIT (Fd (file d)) 0 = Ok evBits →
  8 * Z.of_nat (length evBits) ≤ 65536 →
  StronglySorted Z.lt (CapableTypes d) ∧ NoDup (CapableTypes d) ∧
  ∀ t, t ∈ CapableTypes d ↔ bitIsSet evBits t = true.
Proof.
  intros Hev Hlen. unfold CapableTypes. rewrite Hev.
  rewrite foldl_append_uint16, app_nil_l, fmap_uint16_setBits by done.
  split; [apply setBits_sorted|].
  split; [apply StronglySorted_lt_NoDup, setBits_sorted|].
  intros t. apply elem_of_setBits.
Qed.

(** X6. When the property query succeeds (with a bit-field over the 16-bit
    properties), [Properties] lists exactly the properties whose bit is set,
    in strictly ascending order and hence without duplicates. *)
Theorem Properties_marked_properties d propBits :
  ioctlEVIOCGPROP (Fd (file d)) = Ok propBits →
  8 * Z.of_nat (length propBits) ≤ 65536 →
  StronglySorted Z.lt (Properties d) ∧ NoDup (Properties d) ∧
  ∀ p, p ∈ Properties d ↔ bitIsSet propBits p = true.
Proof.
  intros Hprop Hlen. unfold Properties. rewrite Hprop.
  rewrite foldl_append_uint16, app_nil_l, fmap_uint16_setBits by done.
  split; [apply setBits_sorted|].
  split; [apply StronglySorted_lt_NoDup, setBits_sorted|].
  intros t. apply elem_of_setBits.
Qed.

(** *** State queries *)

(** X7. [State], [AbsInfos] and [Open] return either a value and no error
    or an error and no value, never both and never neither. *)
Theorem value_or_error :
  (∀ d t, (∃ st, State d t = (Some st, None)) ∨
          (∃ err, State d t = (None, Some err))) ∧
  (∀ d, (∃ a, AbsInfos d = (Some a, None)) ∨
        (∃ err, AbsInfos d = (None, Some err))) ∧
  (∀ path σ, (∃ d, (Open path σ).1 = (Some d, None)) ∨
             (∃ err, (Open path σ).1 = (None, Some err))).
Proof.
  split; [|split].
  - intros d t. unfold State.
    destruct (ioctlEVIOCGBIT (Fd (file d)) 0) as [evBits|]; [|eauto].
    destruct (bitIsSet evBits t); simpl; [|eauto].
    destruct (ioctlEVIOCGBIT (Fd (file d)) t); [|eauto].
    destruct (stateQuery (Fd (file d)) t); eauto.
  - intros d. unfold AbsInfos.
    destruct (ioctlEVIOCGBIT (Fd (file d)) EV_ABS); eauto.
  - intros path σ. unfold Open.
    destruct (os_Open path σ) as [[f|err] σ1]; [|eauto].
    destruct (ioctlEVIOCGVERSION (Fd f)); eauto.
Qed.

(** X8. The errors of [State]: a failure of either bit-field query is
    returned under the prefix "Cannot get evBits: " (the same prefix for the
    supported-codes query as for the global one), whereas a failure of the
    key-state query is returned as it is, without a prefix; in each case no
    map is returned. *)
Theorem State_errors d :
  (∀ t err,
      ioctlEVIOCGBIT (Fd (file d)) 0 = Err err →
      State d t = (None, Some (Errorf ("Cannot get evBits: " ++ Error err)))) ∧
  (∀ t evBits err,
      ioctlEVIOCGBIT (Fd (file d)) 0 = Ok evBits → bitIsSet evBits t = true →
      ioctlEVIOCGBIT (Fd (file d)) t = Err err →
      State d t = (None, Some (Errorf ("Cannot get evBits: " ++ Error err)))) ∧
  (∀ evBits codeBits err,
      ioctlEVIOCGBIT (Fd (file d)) 0 = Ok evBits → bitIsSet evBits EV_KEY = true →
      ioctlEVIOCGBIT (Fd (file d)) EV_KEY = Ok codeBits →
      ioctlEVIOCGKEY (Fd (file d)) = Err err →
      State d EV_KEY = (None, Some err)).
Proof.
  split; [|split].
  - intros t err Hev. unfold State. by rewrite Hev.
  - intros t evBits err Hev Hset Hcode. unfold State. by rewrite Hev, Hset, Hcode.
  - intros evBits codeBits err Hev Hset Hcode Hkey.
    unfold State, stateQuery. by rewrite Hev, Hset, Hcode, Z.eqb_refl, Hkey.
Qed.

(** The state query that the [switch] selects for each of the four types,
    the constants being distinct. *)
Lemma stateQuery_dispatch fd :
  NoDup [EV_KEY; EV_SW; EV_LED; EV_SND] →
  stateQuery fd EV_KEY = ioctlEVIOCGKEY fd ∧
  stateQuery fd EV_SW = ioctlEVIOCGSW fd ∧
  stateQuery fd EV_LED = ioctlEVIOCGLED fd ∧
  stateQuery fd EV_SND = ioctlEVIOCGSND fd.
Proof.
  intros Hnd. unfold stateQuery.
  apply NoDup_cons in Hnd as [Hk Hnd]. apply NoDup_cons in Hnd as [Hs Hnd].
  apply NoDup_cons in Hnd as [Hl _].
  assert (EV_SW ≠ EV_KEY ∧ EV_LED ≠ EV_KEY ∧ EV_SND ≠ EV_KEY ∧
          EV_LED ≠ EV_SW ∧ EV_SND ≠ EV_SW ∧ EV_SND ≠ EV_LED)
    as (? & ? & ? & ? & ? & ?).
  { repeat split; intros Heq;
      solve [ apply Hk; rewrite <- Heq, !elem_of_cons; auto
            | apply Hs; rewrite <- Heq, !elem_of_cons; auto
            | apply Hl; rewrite <- Heq, !elem_of_cons; auto ]. }
  rewrite !Z.eqb_refl.
  by rewrite !(proj2 (Z.eqb_neq _ _)) by done.
Qed.

(** X9. The snapshot of [State] for each of the four types: when the type
    is marked and the global, the supported-codes and the matching state query
    succeed, the map has exactly the supported codes as keys, as many entries
    as there are supported codes, and maps each of them to its bit of the
    state bit-field of that very type. *)
Theorem State_snapshot d t evBits codeBits stateBits :
  NoDup [EV_KEY; EV_SW; EV_LED; EV_SND] →
  ioctlEVIOCGBIT (Fd (file d)) 0 = Ok evBits →
  bitIsSet evBits t = true →
  ioctlEVIOCGBIT (Fd (file d)) t = Ok codeBits →
  8 * Z.of_nat (length codeBits) ≤ 65536 →
  (t = EV_KEY ∧ ioctlEVIOCGKEY (Fd (file d)) = Ok stateBits) ∨
  (t = EV_SW ∧ ioctlEVIOCGSW (Fd (file d)) = Ok stateBits) ∨
  (t = EV_LED ∧ ioctlEVIOCGLED (Fd (file d)) = Ok stateBits) ∨
  (t = EV_SND ∧ ioctlEVIOCGSND (Fd (file d)) = Ok stateBits) →
  ∃ st, State d t = (Some st, None) ∧
        dom st = list_to_set (setBits codeBits) ∧
        size st = length (setBits codeBits) ∧
        ∀ c, c ∈ setBits codeBits → st !! c = Some (bitIsSet stateBits c).
Proof.
  intros Hnd Hev Hset Hcode Hlen Hquery.
  assert (stateQuery (Fd (file d)) t = Ok stateBits) as Hq.
  { destruct (stateQuery_dispatch (Fd (file d)) Hnd) as (Hk & Hs & Hl & Hn).
    destruct Hquery as [[-> <-]|[[-> <-]|[[-> <-]|[-> <-]]]]; done. }
  destruct (State_lookup _ _ _ _ _ Hev Hset Hcode Hq Hlen) as (st & Hst & Hl).
  exists st. split; [done|].
  assert (dom st = list_to_set (setBits codeBits)) as Hdom.
  { apply set_eq. intros c.
    rewrite elem_of_dom, elem_of_list_to_set, elem_of_setBits, Hl.
    destruct (bitIsSet codeBits c); split;
      first [done | by intros [? ?] | intros _; by eexists]. }
  split; [done|]. split.
  - rewrite <- size_dom, Hdom. apply size_list_to_set.
    apply StronglySorted_lt_NoDup, setBits_sorted.
  - intros c Hc%elem_of_setBits. by rewrite Hl, Hc.
Qed.

(** X10. A type that [CapableTypes] does not list has an empty [State]: no
    error, and no query beyond the global one decides it. *)
Theorem State_of_unlisted_type d t evBits :
  ioctlEVIOCGBIT (Fd (file d)) 0 = Ok evBits →
  8 * Z.of_nat (length evBits) ≤ 65536 →
  t ∉ CapableTypes d →
  State d t = (Some ∅, None).
Proof.
  intros Hev Hlen Ht. unfold CapableTypes in Ht. rewrite Hev in Ht.
  rewrite foldl_append_uint16, app_nil_l, fmap_uint16_setBits in Ht by done.
  rewrite elem_of_setBits in Ht.
  unfold State. rewrite Hev.
  by destruct (bitIsSet evBits t).
Qed.

(** *** Axis infos *)

(** X11. When the axis bit-field query succeeds and the info query fails
    for every axis whose bit is set, [AbsInfos] returns the empty map and no
    error. *)
Theorem AbsInfos_all_axes_fail d absBits :
  ioctlEVIOCGBIT (Fd (file d)) EV_ABS = Ok absBits →
  (∀ abs, bitIsSet absBits abs = true →
          ∃ err, ioctlEVIOCGABS (Fd (file d)) abs = Err err) →
  AbsInfos d = (Some ∅, None).
Proof.
  intros Habs Hfail. unfold AbsInfos. rewrite Habs. do 2 f_equal.
  assert (∀ l (a : gmap Z AbsInfo),
            (∀ abs, abs ∈ l → ∃ err, ioctlEVIOCGABS (Fd (file d)) abs = Err err) →
            foldl (λ (a : gmap Z AbsInfo) abs,
                     match ioctlEVIOCGABS (Fd (file d)) abs with
                     | Ok absInfo => <[uint16 abs := absInfo]> a
                     | Err _ => a
                     end) a l = a) as Hfold.
  { induction l as [|x l IH]; intros a Hl; cbn [foldl]; [done|].
    destruct (Hl x) as [err ->]; [by left|].
    apply IH. intros abs Habs'. apply Hl. by right. }
  apply Hfold. intros abs Hin. by apply Hfail, elem_of_setBits.
Qed.

(** *** The event stream reader *)

(** What the trimming loop returns is a prefix of the slice, made of
    records with non-zero seconds, and when it is a proper prefix the record
    that follows it has zero seconds. *)
Lemma trimLoop_longest_prefix rest pre :
  Forall (λ e, Sec (Time e) ≠ 0) pre →
  let r := trimLoop (length pre) rest (pre ++ rest) in
  r `prefix_of` (pre ++ rest) ∧
  Forall (λ e, Sec (Time e) ≠ 0) r ∧
  (r = pre ++ rest ∨
   ∃ z, (pre ++ rest) !! length r = Some z ∧ Sec (Time z) = 0).
Proof.
  revert pre. induction rest as [|e rest IH]; intros pre Hpre; cbn [trimLoop].
  - cbv zeta. rewrite app_nil_r. split; [done|]. split; [done|by left].
  - destruct (Z.eqb_spec (Sec (Time e)) 0) as [Hz|Hnz]; cbv zeta.
    + rewrite take_app_length. split; [by apply prefix_app_r|].
      split; [done|]. right. exists e.
      split; [|done]. by rewrite lookup_app_r, Nat.sub_diag by lia.
    + specialize (IH (pre ++ [e])).
      rewrite length_app, Nat.add_1_r, <- app_assoc in IH. cbn [app] in IH.
      apply IH. apply Forall_app. split; [done|]. by constructor.
Qed.

(** X12. What [Read] returns: when it reports no error, at most 16 records,
    every one of them with non-zero seconds; when it reports an error, 16
    zeroed records. *)
Theorem Read_result_shape d σ :
  match (Read d σ).1.2 with
  | None => (length (Read d σ).1.1 ≤ 16)%nat ∧
            Forall (λ e, Sec (Time e) ≠ 0) (Read d σ).1.1
  | Some _ => (Read d σ).1.1 = replicate 16 zeroEvent
  end.
Proof.
  destruct (file_Read (file d) (replicate (eventsize * 16) x00) σ)
    as [[[buffer n] [err|]] σ'] eqn:Hread.
  - unfold Read. by rewrite Hread.
  - rewrite (Read_decoded _ _ _ _ _ Hread). cbn [fst snd].
    destruct (trimLoop_longest_prefix (Binary.decodeEvents 16 buffer) [])
      as (Hpre & Hnz & _); [done|].
    cbn [app length] in Hpre, Hnz. split; [|done].
    apply prefix_length in Hpre. by rewrite length_decodeEvents in Hpre.
Qed.

(** X13. [ReadOne] always returns an event and never a nil pointer: the
    buffer handed to the decoder has the size of a record, so the decoder
    cannot fail. *)
Theorem ReadOne_never_nil d σ : is_Some (ReadOne d σ).1.1.
Proof.
  destruct (file_Read (file d) (replicate eventsize x00) σ)
    as [[[buffer n] [err|]] σ'] eqn:Hread; unfold ReadOne; rewrite Hread.
  - by eexists.
  - rewrite Read_event_full; [by eexists|].
    apply file_Read_length in Hread. by rewrite Hread, length_replicate.
Qed.

(** X14. On a stream that delivers exactly one whole record, [ReadOne]
    returns that record whatever its seconds are, while [Read] returns it
    alone when its seconds are not zero and returns no record at all, and no
    error, when they are zero. *)
Theorem Read_and_ReadOne_on_one_record d σ data :
  stream_read (Fd (file d)) (clock σ) eventsize = (data, None) →
  stream_read (Fd (file d)) (clock σ) (eventsize * 16) = (data, None) →
  length data = eventsize →
  let e := Binary.decodeEvent data in
  let σ' := {| open_fds := open_fds σ; clock := S (clock σ) |} in
  ReadOne d σ = ((Some e, None), σ') ∧
  Read d σ = ((if Sec (Time e) =? 0 then [] else [e], None), σ').
Proof.
  intros Hone Hblock Hlen e σ'. split.
  - unfold ReadOne, file_Read. rewrite length_replicate, Hone.
    rewrite take_ge by lia. rewrite Hlen. cbn [Nat.eqb eventsize andb].
    rewrite drop_replicate, Nat.sub_diag, app_nil_r.
    by rewrite Read_event_full.
  - assert (file_Read (file d) (replicate (eventsize * 16) x00) σ
            = (data ++ replicate (15 * eventsize) x00,
               Z.of_nat (length data), None, σ')) as Hread.
    { unfold file_Read. rewrite length_replicate, Hblock.
      rewrite take_ge by (unfold eventsize in *; lia).
      rewrite Hlen. cbn [Nat.eqb eventsize andb].
      by rewrite drop_replicate. }
    rewrite (Read_decoded _ _ _ _ _ Hread).
    assert (Binary.decodeEvents 16 (data ++ replicate (15 * eventsize) x00)
            = e :: replicate 15 zeroEvent) as ->.
    { change 16%nat with (1 + 15)%nat.
      rewrite decodeEvents_app, decodeEvents_zeros by lia.
      cbn [Binary.decodeEvents app]. by rewrite take_ge by lia. }
    cbn [trimLoop]. by destruct (Sec (Time e) =? 0).
Qed.

End Contract.

(** ** The further properties on the simulated devices *)

Section SimulatedContract.
Local Existing Instance Sim.codes.
Local Existing Instance Sim.transport.
Local Existing Instance Sim.files.

Ltac by_evaluation := vm_compute; reflexivity.

Lemma Open_success_witness :
  ∃ d, Open "/dev/input/event0" {| open_fds := []; clock := 0 |}
       = ((Some d, None), {| open_fds := [1%N]; clock := 0 |})
       ∧ Path d = "/dev/input/event0" ∧ driverVersion d = 65537.
Proof.
  destruct (Open_success "/dev/input/event0" {| open_fds := []; clock := 0 |}
              {| Fd := 1; Name_ := "/dev/input/event0" |}
              {| open_fds := [1%N]; clock := 0 |} 65537)
    as (d & Hopen & Hpath & Hver & _); [reflexivity|reflexivity|].
  by exists d.
Defined.

Lemma Open_then_Close_witness :
  Close Sim.dev {| open_fds := [1%N]; clock := 0 |} = {| open_fds := []; clock := 0 |}.
Proof.
  apply (Open_then_Close "/dev/input/event0"). reflexivity.
Defined.

Lemma CapableTypes_marked_types_witness :
  CapableTypes Sim.dev = [0; 1; 3; 4]
  ∧ (3 ∈ CapableTypes Sim.dev) ∧ (2 ∉ CapableTypes Sim.dev).
Proof.
  split; [reflexivity|].
  destruct (CapableTypes_marked_types Sim.dev Sim.evBits) as (_ & _ & Hin);
    [reflexivity|simpl; lia|].
  split; [by apply Hin|]. rewrite Hin. discriminate.
Defined.

Lemma State_snapshot_witness :
  ∃ st, State Sim.dev 1 = (Some st, None)
        ∧ size st = 2%nat
        ∧ st !! 1 = Some false ∧ st !! 30 = Some true.
Proof.
  destruct (State_snapshot Sim.dev 1 Sim.evBits Sim.keyBits Sim.keyState)
    as (st & Hst & _ & Hsize & Hl).
  - apply (bool_decide_unpack _). by vm_compute.
  - reflexivity.
  - reflexivity.
  - reflexivity.
  - simpl. lia.
  - left. split; reflexivity.
  - exists st. split; [exact Hst|]. split; [exact Hsize|].
    split; apply Hl; apply elem_of_setBits; reflexivity.
Defined.

Lemma State_of_unlisted_type_witness :
  (2 ∉ CapableTypes Sim.dev) ∧ State Sim.dev 2 = (Some ∅, None).
Proof.
  assert (2 ∉ CapableTypes Sim.dev) as Hnot.
  { change (CapableTypes Sim.dev) with [0; 1; 3; 4].
    rewrite !not_elem_of_cons. repeat split; try discriminate.
    apply not_elem_of_nil. }
  split; [exact Hnot|].
  apply (State_of_unlisted_type Sim.dev 2 Sim.evBits);
    [reflexivity|simpl; lia|exact Hnot].
Defined.

Lemma Read_block_of_records_witness :
  Read Sim.dev (Sim.world 0)
  = (([Sim.event 1000 500 1 30 1; Sim.event 1001 0 1 30 (-1)], None), Sim.world 1).
Proof.
  apply (Read_block_of_records Sim.dev (Sim.world 0) (Sim.keyDown ++ Sim.keyOdd) 2).
  - by_evaluation.
  - reflexivity.
  - lia.
  - change (Binary.decodeEvents 2 (Sim.keyDown ++ Sim.keyOdd))
      with [Sim.event 1000 500 1 30 1; Sim.event 1001 0 1 30 (-1)].
    repeat constructor; simpl; lia.
Defined.

Lemma Read_and_ReadOne_on_one_record_witness :
  ReadOne Sim.dev (Sim.world 4)
  = ((Some (Sim.event 1000 500 1 30 1), None), Sim.world 5)
  ∧ Read Sim.dev (Sim.world 4)
    = (([Sim.event 1000 500 1 30 1], None), Sim.world 5).
Proof.
  apply (Read_and_ReadOne_on_one_record Sim.dev (Sim.world 4) Sim.keyDown);
    by_evaluation.
Defined.

End SimulatedContract.

Section FlakyContract.
Local Existing Instance Sim.codes.
Local Existing Instance Flaky.transport.
Local Existing Instance Sim.files.

Lemma Properties_marked_properties_witness :
  Properties Sim.dev = [0; 2] ∧ (2 ∈ Properties Sim.dev).
Proof.
  split; [reflexivity|].
  destruct (Properties_marked_properties Sim.dev [x05]) as (_ & _ & Hin);
    [reflexivity|simpl; lia|].
  by apply Hin.
Defined.

Lemma State_errors_witness :
  @State Sim.codes Sim.transport Sim.other 1
  = (None, Some (Errorf "Cannot get evBits: inappropriate ioctl for device"))
  ∧ @State Sim.codes Sim.transport Sim.dev 4
    = (None, Some (Errorf "Cannot get evBits: invalid argument"))
  ∧ State Sim.dev 1 = (None, Some Sim.ENODEV).
Proof.
  split; [|split].
  - apply (proj1 (@State_errors Sim.codes Sim.transport Sim.other) 1 Sim.ENOTTY).
    reflexivity.
  - apply (proj1 (proj2 (@State_errors Sim.codes Sim.transport Sim.dev))
             4 Sim.evBits Sim.EINVAL); reflexivity.
  - change 1 with EV_KEY at 1.
    apply (proj2 (proj2 (State_errors Sim.dev)) [x0b] Sim.keyBits Sim.ENODEV);
      reflexivity.
Defined.

Lemma AbsInfos_all_axes_fail_witness :
  setBits Flaky.absBits = [0; 1; 9] ∧ AbsInfos Sim.dev = (Some ∅, None).
Proof.
  split; [reflexivity|].
  apply (AbsInfos_all_axes_fail Sim.dev Flaky.absBits); [reflexivity|].
  intros abs _. by exists Sim.ENODEV.
Defined.

End FlakyContract.
